(** * Skip-gram context-pair dataset

    A shallow embedding of the [SkipGramDataset] class of the word-embedding
    notebook, and the properties of its pair enumeration.

<<
    class SkipGramDataset(Dataset):
        def __init__(self, text, window_size=4):
            self.window_size = window_size
            self.data = []
            for i, center_word in enumerate(text):
                for j in range(i - window_size, i + window_size + 1):
                    if j != i and j >= 0 and j < len(text):
                        self.data.append((center_word, text[j]))

        def __len__(self):
            return len(self.data)

        def __getitem__(self, idx):
            return self.data[idx]
>>

    Python integers are unbounded, so token ids, indices and the window size
    are [Z].  Exceptions are an explicit error result.  The default
    [window_size=4] is what a caller that omits the argument passes; the
    functions below always take the window size. *)

From stdpp Require Import list gmap strings.

Local Open Scope Z_scope.

(** ** Exceptions and the error monad *)

(** The built-in exceptions that list indexing and argument validation can
    raise.  [ValueError] and [TypeError] are Python's invalid-argument
    conditions. *)
Inductive exn : Set :=
| IndexError
| ValueError
| TypeError.

Inductive result (A : Type) : Type :=
| Ok (a : A)
| Raise (e : exn).

Arguments Ok {A} a.
Arguments Raise {A} e.

#[export] Instance result_ret : MRet result := fun A a => Ok a.

#[export] Instance result_bind : MBind result := fun A B k r =>
  match r with
  | Ok a => k a
  | Raise e => Raise e
  end.

Definition is_invalid_argument (e : exn) : bool :=
  match e with
  | ValueError | TypeError => true
  | IndexError => false
  end.

(** ** The Python built-ins the class uses *)

Definition len {A : Type} (l : list A) : Z := Z.of_nat (length l).

(** [range(start, stop)]: start, start+1, ..., stop-1; empty when
    [stop <= start]. *)
Definition range (start stop : Z) : list Z := seqZ start (stop - start).

(** [enumerate(l)]: the elements of [l] paired with their index from 0. *)
Definition enumerate {A : Type} (l : list A) : list (Z * A) :=
  imap (fun k x => (Z.of_nat k, x)) l.

(** [l[idx]] on a list: a negative index counts from the end, and an index
    outside [-len(l), len(l)) raises [IndexError]. *)
Definition list_getitem {A : Type} (l : list A) (idx : Z) : result A :=
  let k := if idx <? 0 then idx + len l else idx in
  if (0 <=? k) && (k <? len l) then
    match l !! Z.to_nat k with
    | Some x => Ok x
    | None => Raise IndexError
    end
  else Raise IndexError.

(** A [for x in xs: body] loop over a state [S]; an exception in the body
    leaves the loop. *)
Fixpoint for_each {A S : Type} (xs : list A) (body : A -> S -> result S)
    (s : S) : result S :=
  match xs with
  | [] => Ok s
  | x :: xs' => s' ← body x s; for_each xs' body s'
  end.

(** ** The class *)

(** An instance: the two attributes [__init__] sets. *)
Record SkipGramDataset : Set := mkSkipGramDataset {
  window_size : Z;
  data : list (Z * Z)
}.

(** The objects [__init__] works on: the caller's list bound to [text], and
    [self].  The loops thread this state, so that what they write, and what
    they leave alone, is visible in the result. *)
Record frame : Set := mkFrame {
  text : list Z;
  self : SkipGramDataset
}.

(** [self.data.append(p)] *)
Definition data_append (p : Z * Z) (fr : frame) : frame :=
  {| text := text fr;
     self := {| window_size := window_size (self fr);
                data := data (self fr) ++ [p] |} |}.

(** The body of the inner loop, for one [j]. *)
Definition inner_body (i center_word : Z) (j : Z) (fr : frame) : result frame :=
  if negb (j =? i) && (j >=? 0) && (j <? len (text fr)) then
    x ← list_getitem (text fr) j;
    Ok (data_append (center_word, x) fr)
  else Ok fr.

(** The body of the outer loop, for one [(i, center_word)]. *)
Definition outer_body (w : Z) (ic : Z * Z) (fr : frame) : result frame :=
  let '(i, center_word) := ic in
  for_each (range (i - w) (i + w + 1)) (inner_body i center_word) fr.

Definition __init__ (text0 : list Z) (w : Z) : result frame :=
  let fr0 := {| text := text0;
                self := {| window_size := w; data := [] |} |} in
  for_each (enumerate (text fr0)) (outer_body w) fr0.

Definition __len__ (ds : SkipGramDataset) : Z := len (data ds).

Definition __getitem__ (ds : SkipGramDataset) (idx : Z) : result (Z * Z) :=
  list_getitem (data ds) idx.

(** The class call [SkipGramDataset(text, window_size)]: the instance that
    [__init__] leaves. *)
Definition construct (text0 : list Z) (w : Z) : result SkipGramDataset :=
  fr ← __init__ text0 w; Ok (self fr).

(** The pair generator: [SkipGramDataset(text, window_size).data]. *)
Definition generate_pairs (S : list Z) (w : Z) : result (list (Z * Z)) :=
  ds ← construct S w; Ok (data ds).

(** ** The constructor on a heap of objects

    The same [__init__], statement by statement, on a store in which lists
    and instances are objects reached through references, so that a write
    through one reference is seen through every other reference to the same
    object.  Integers and tuples are immutable values. *)

Abbreviation loc := positive (only parsing).

Inductive value : Type :=
| VInt (n : Z)
| VTuple (a b : value)
| VRef (l : loc).

Inductive object : Type :=
| OList (items : list value)
| OInstance (attrs : gmap string value).

Abbreviation heap := (gmap positive object) (only parsing).

(** The exceptions the statements of [__init__] can raise on a heap. *)
Inductive heap_exn : Set :=
| HIndexError
| HAttributeError
| HTypeError.

Inductive hresult (A : Type) : Type :=
| HOk (a : A)
| HRaise (e : heap_exn).

Arguments HOk {A} a.
Arguments HRaise {A} e.

#[export] Instance hresult_ret : MRet hresult := fun A a => HOk a.

#[export] Instance hresult_bind : MBind hresult := fun A B k r =>
  match r with
  | HOk a => k a
  | HRaise e => HRaise e
  end.

(** [o.name = v]: only an instance takes attributes. *)
Definition h_setattr (o : loc) (name : string) (v : value) (h : heap) :
    hresult heap :=
  match h !! o with
  | Some (OInstance attrs) => HOk (<[o := OInstance (<[name := v]> attrs)]> h)
  | _ => HRaise HAttributeError
  end.

(** [o.name] *)
Definition h_getattr (o : loc) (name : string) (h : heap) : hresult value :=
  match h !! o with
  | Some (OInstance attrs) =>
      match attrs !! name with
      | Some v => HOk v
      | None => HRaise HAttributeError
      end
  | _ => HRaise HAttributeError
  end.

(** [[]]: a new, empty list object, at an address no object has. *)
Definition h_new_list (h : heap) : loc * heap :=
  let l := fresh (dom h) in (l, <[l := OList []]> h).

(** [len(o)] *)
Definition h_len (o : loc) (h : heap) : hresult Z :=
  match h !! o with
  | Some (OList items) => HOk (len items)
  | _ => HRaise HTypeError
  end.

(** [o[idx]] *)
Definition h_getitem (o : loc) (idx : Z) (h : heap) : hresult value :=
  match h !! o with
  | Some (OList items) =>
      match list_getitem items idx with
      | Ok x => HOk x
      | Raise _ => HRaise HIndexError
      end
  | _ => HRaise HTypeError
  end.

(** [target.append]: the bound method, found on the list object that
    [target] refers to; a value of another kind has no such attribute. *)
Definition h_append_method (target : value) (h : heap) : hresult loc :=
  match target with
  | VRef l =>
      match h !! l with
      | Some (OList _) => HOk l
      | _ => HRaise HAttributeError
      end
  | _ => HRaise HAttributeError
  end.

(** The call of the bound method: the list object at [l] grows in place. *)
Definition h_list_append (l : loc) (x : value) (h : heap) : hresult heap :=
  match h !! l with
  | Some (OList items) => HOk (<[l := OList (items ++ [x])]> h)
  | _ => HRaise HTypeError
  end.

(** A [for] loop over an immutable sequence of values. *)
Fixpoint h_for_each {A : Type} (xs : list A) (body : A -> heap -> hresult heap)
    (h : heap) : hresult heap :=
  match xs with
  | [] => HOk h
  | x :: xs' => h' ← body x h; h_for_each xs' body h'
  end.

(** [for k, x in enumerate(o)] from position [k] on.  The list iterator
    reads the list object anew at every step, so the loop sees what its
    body does to the list; [fuel] bounds the number of steps, and [None]
    is a run that has not finished within it. *)
Fixpoint h_for_enumerate (fuel : nat) (o : loc) (k : nat)
    (body : Z -> value -> heap -> hresult heap) (h : heap) :
    option (hresult heap) :=
  match fuel with
  | O => None
  | Datatypes.S fuel' =>
      match h !! o with
      | Some (OList items) =>
          match items !! k with
          | None => Some (HOk h)
          | Some x =>
              match body (Z.of_nat k) x h with
              | HOk h' => h_for_enumerate fuel' o (Datatypes.S k) body h'
              | HRaise e => Some (HRaise e)
              end
          end
      | _ => Some (HRaise HTypeError)
      end
  end.

(** The inner loop body: the guard, short-circuit as [and] is, and the
    append; [self.data.append] is looked up before the tuple is built, and
    called after. *)
Definition h_inner_body (self text : loc) (i : Z) (center_word : value)
    (j : Z) (h : heap) : hresult heap :=
  if negb (j =? i) && (j >=? 0) then
    n ← h_len text h;
    if j <? n then
      target ← h_getattr self "data" h;
      l ← h_append_method target h;
      x ← h_getitem text j h;
      h_list_append l (VTuple center_word x) h
    else HOk h
  else HOk h.

Definition h_outer_body (self text : loc) (w : Z) (i : Z) (center_word : value)
    (h : heap) : hresult heap :=
  h_for_each (range (i - w) (i + w + 1)) (h_inner_body self text i center_word) h.

Definition h_init (fuel : nat) (self text : loc) (w : Z) (h : heap) :
    option (hresult heap) :=
  match h_setattr self "window_size" (VInt w) h with
  | HRaise e => Some (HRaise e)
  | HOk h1 =>
      let '(l, h2) := h_new_list h1 in
      match h_setattr self "data" (VRef l) h2 with
      | HRaise e => Some (HRaise e)
      | HOk h3 => h_for_enumerate fuel text 0 (h_outer_body self text w) h3
      end
  end.

(** A list of token ids and a pair of token ids as values. *)
Definition int_values (S : list Z) : list value := VInt <$> S.

Definition pair_value (p : Z * Z) : value := VTuple (VInt p.1) (VInt p.2).

(** The heap [h] with the list object at [l] holding [items]. *)
Definition h_with_items (l : loc) (h : heap) (items : list value) : heap :=
  <[l := OList items]> h.

(** A run of [__init__] that returns, in heap [h']. *)
Definition h_returns (self text : loc) (w : Z) (h h' : heap) : Prop :=
  exists fuel, h_init fuel self text w h = Some (HOk h').

(** In heap [h], [self.data] refers to a list object that holds the pairs
    [ps]. *)
Definition h_dataset_pairs (h : heap) (self : loc) (ps : list (Z * Z)) : Prop :=
  exists attrs ld,
    h !! self = Some (OInstance attrs) /\
    attrs !! "data" = Some (VRef ld) /\
    h !! ld = Some (OList (pair_value <$> ps)).

(** ** The callers of the class *)

(** The window size of a call that leaves [window_size] out. *)
Definition default_window_size : Z := 4.

(** [SkipGramDataset(text)] *)
Definition construct_default (text0 : list Z) : result SkipGramDataset :=
  construct text0 default_window_size.

(** [text_pipeline = lambda x: [vocab[token] for token in tokenizer(x)]].
    The tokenizer and the vocabulary are torchtext objects and are taken as
    parameters: [tokenizer] maps a text to its tokens, and [vocab] is the
    vocabulary's lookup, which answers an index for every token (the index
    of the unknown token for one it does not hold). *)
Definition text_pipeline (vocab : string -> Z)
    (tokenizer : string -> list string) (x : string) : list Z :=
  vocab <$> tokenizer x.

(** [SkipGramDataset(text_pipeline(x))], the example dataset. *)
Definition dataset_of_text (vocab : string -> Z)
    (tokenizer : string -> list string) (x : string) : result SkipGramDataset :=
  construct_default (text_pipeline vocab tokenizer x).

(** ** Token ids from a dictionary vocabulary *)

(** [d[k]] on a dict raises [KeyError] for a missing key. *)
Inductive key_result (A : Type) : Type :=
| KeyOk (a : A)
| KeyError (k : string).

Arguments KeyOk {A} a.
Arguments KeyError {A} k.

Definition dict_getitem (d : gmap string Z) (k : string) : key_result Z :=
  match d !! k with
  | Some v => KeyOk v
  | None => KeyError k
  end.

(** [k in d] *)
Definition dict_contains (d : gmap string Z) (k : string) : bool :=
  bool_decide (is_Some (d !! k)).

(** [[vocab[token] for token in tokens if token in vocab]] *)
Fixpoint token_ids (vocab : gmap string Z) (tokens : list string) :
    key_result (list Z) :=
  match tokens with
  | [] => KeyOk []
  | token :: rest =>
      if dict_contains vocab token then
        match dict_getitem vocab token with
        | KeyOk id =>
            match token_ids vocab rest with
            | KeyOk ids => KeyOk (id :: ids)
            | KeyError k => KeyError k
            end
        | KeyError k => KeyError k
        end
      else token_ids vocab rest
  end.

(** ** Counting tokens *)

(** A [collections.Counter]: a missing element counts 0. *)
Definition counter_get (c : gmap string Z) (elem : string) : Z :=
  default 0 (c !! elem).

(** [counter.update(iterable)]: one more for each element, in turn. *)
Definition counter_update (iterable : list string) (c : gmap string Z) :
    gmap string Z :=
  foldl (fun c elem => <[elem := counter_get c elem + 1]> c) c iterable.

(** The loop that fills the counter from the training samples:
<<
    counter = Counter()
    for (label, line) in train_iter:
        counter.update(tokenizer(line))
>> *)
Definition count_tokens (tokenizer : string -> list string)
    (train_iter : list (Z * string)) : gmap string Z :=
  foldl (fun counter sample => counter_update (tokenizer sample.2) counter)
        ∅ train_iter.

(** ** Showing the first samples *)

(** A loop body either goes on to the next item or breaks. *)
Inductive flow (S : Type) : Type :=
| Next (s : S)
| Break (s : S).

Arguments Next {S} s.
Arguments Break {S} s.

(** A [for] loop with [break]: the final state, and the items the iterator
    was never asked for. *)
Fixpoint for_each_break {A S : Type} (xs : list A) (body : A -> S -> flow S)
    (s : S) : S * list A :=
  match xs with
  | [] => (s, [])
  | x :: xs' =>
      match body x s with
      | Next s' => for_each_break xs' body s'
      | Break s' => (s', xs')
      end
  end.

(** The counter [i] and what has been printed, one entry per [print]. *)
Record preview_state : Type := mkPreview {
  preview_i : Z;
  printed : list (Z * string)
}.

(** <<
    if i < 5:
        print(f"label: {label}, line: {line}")
        i += 1
    else:
        break
>> *)
Definition preview_body (sample : Z * string) (st : preview_state) :
    flow preview_state :=
  if preview_i st <? 5 then
    Next {| preview_i := preview_i st + 1;
            printed := printed st ++ [sample] |}
  else Break st.

Definition preview (train_iter : list (Z * string)) :
    preview_state * list (Z * string) :=
  for_each_break train_iter preview_body {| preview_i := 0; printed := [] |}.

(** ** The enumeration the specification describes *)

(** The closed range [lo, hi], in increasing order. *)
Definition closed_range (lo hi : Z) : list Z := seqZ lo (hi - lo + 1).

(** The pairs of one center index [i]: every [j] of [i - w, i + w] in
    increasing order, without [j = i] and without [j] outside
    [0, len(S) - 1], gives [(S[i], S[j])]. *)
Definition window_pairs (S : list Z) (w i : Z) : list (Z * Z) :=
  j ← filter (fun j => j ≠ i ∧ 0 <= j <= len S - 1) (closed_range (i - w) (i + w));
  match S !! Z.to_nat i, S !! Z.to_nat j with
  | Some c, Some x => [(c, x)]
  | _, _ => []
  end.

(** The brute-force double loop over all centers, in increasing order. *)
Definition brute_force (S : list Z) (w : Z) : list (Z * Z) :=
  i ← closed_range 0 (len S - 1); window_pairs S w i.

(** The count the specification gives: for each center, the size of its
    in-range window less the center itself. *)
Definition window_count (S : list Z) (w : Z) : Z :=
  foldr Z.add 0
    ((fun i => Z.min (i + w) (len S - 1) - Z.max (i - w) 0)
       <$> closed_range 0 (len S - 1)).

(** * Proofs *)

(** ** The loops as list comprehensions *)

(** [extend ps fr]: the frame after [self.data] has received [ps]. *)
Definition extend (ps : list (Z * Z)) (fr : frame) : frame :=
  {| text := text fr;
     self := {| window_size := window_size (self fr);
                data := data (self fr) ++ ps |} |}.

(** What one pass of the inner body contributes. *)
Definition context_pair (T : list Z) (i c j : Z) : list (Z * Z) :=
  if negb (j =? i) && (j >=? 0) && (j <? len T) then
    match T !! Z.to_nat j with
    | Some x => [(c, x)]
    | None => []
    end
  else [].

Definition center_pairs (T : list Z) (w : Z) (ic : Z * Z) : list (Z * Z) :=
  j ← range (ic.1 - w) (ic.1 + w + 1); context_pair T ic.1 ic.2 j.

Definition pairs_of (T : list Z) (w : Z) : list (Z * Z) :=
  ic ← enumerate T; center_pairs T w ic.

(** The ordered pairs of distinct positions of a sequence of length [n]
    that lie within [w] of each other: centers in increasing order, and for
    each center its contexts in increasing order. *)
Definition position_pairs (n w : Z) : list (Z * Z) :=
  i ← seqZ 0 n; j ← seqZ 0 n;
  if decide (j ≠ i ∧ Z.abs (j - i) <= w) then [(i, j)] else [].

(** The tokens at a pair of positions. *)
Definition tokens_at (T : list Z) (p : Z * Z) : Z * Z :=
  (T !!! Z.to_nat p.1, T !!! Z.to_nat p.2).

(** How often [t] occurs in a list of tokens. *)
Definition occurrences (t : string) (l : list string) : Z :=
  len (filter (fun u => u = t) l).


(** The counter holds exactly the tokens seen so far, each with the number
    of times it was seen. *)
Definition counts_of (c : gmap string Z) (l : list string) : Prop :=
  forall t, c !! t =
    if decide (occurrences t l = 0) then None else Some (occurrences t l).

Lemma extend_nil fr : extend [] fr = fr.
Proof. destruct fr as [T [w d]]. unfold extend; simpl. by rewrite app_nil_r. Qed.

Lemma extend_extend ps qs fr : extend qs (extend ps fr) = extend (ps ++ qs) fr.
Proof. unfold extend; simpl. by rewrite app_assoc. Qed.

Lemma text_extend ps fr : text (extend ps fr) = text fr.
Proof. reflexivity. Qed.

Lemma list_getitem_in_range {A : Type} (l : list A) (j : Z) :
  0 <= j < len l -> exists x, l !! Z.to_nat j = Some x /\ list_getitem l j = Ok x.
Proof.
  intros Hj. unfold list_getitem.
  destruct (Z.ltb_spec j 0) as [?|_]; [lia|].
  destruct (Z.leb_spec 0 j) as [_|?]; [|lia].
  destruct (Z.ltb_spec j (len l)) as [_|?]; [|lia]. simpl.
  destruct (lookup_lt_is_Some_2 l (Z.to_nat j)) as [x Hx].
  { unfold len in Hj. lia. }
  exists x. by rewrite Hx.
Qed.

Lemma inner_body_extend i c j fr :
  inner_body i c j fr = Ok (extend (context_pair (text fr) i c j) fr).
Proof.
  unfold inner_body, context_pair.
  destruct (negb (j =? i) && (j >=? 0) && (j <? len (text fr))) eqn:Hg.
  - apply andb_prop in Hg as [Hg Hlt]. apply andb_prop in Hg as [_ Hge].
    destruct (list_getitem_in_range (text fr) j) as (x & Hx & ->); [lia|].
    by rewrite Hx.
  - by rewrite extend_nil.
Qed.

(** A loop whose body only appends to [self.data] appends the
    concatenation of what each pass contributes. *)
Lemma for_each_extend {A : Type} (T : list Z) (f : A -> list (Z * Z))
    (body : A -> frame -> result frame) :
  (forall x fr, text fr = T -> body x fr = Ok (extend (f x) fr)) ->
  forall xs fr, text fr = T -> for_each xs body fr = Ok (extend (xs ≫= f) fr).
Proof.
  intros Hbody xs. induction xs as [|x xs IH]; intros fr HT; simpl.
  - by rewrite extend_nil.
  - rewrite (Hbody x fr HT). simpl.
    change (for_each xs body (extend (f x) fr) =
            Ok (extend (f x ++ (xs ≫= f)) fr)).
    rewrite IH by done. by rewrite extend_extend.
Qed.

Lemma outer_body_extend w ic fr :
  outer_body w ic fr = Ok (extend (center_pairs (text fr) w ic) fr).
Proof.
  destruct ic as [i c]. unfold outer_body, center_pairs; simpl.
  apply (for_each_extend (text fr)); [|done].
  intros j fr' <-. apply inner_body_extend.
Qed.

Lemma init_frame (S : list Z) (w : Z) :
  __init__ S w =
  Ok {| text := S; self := {| window_size := w; data := pairs_of S w |} |}.
Proof.
  unfold __init__; simpl.
  rewrite (for_each_extend S (center_pairs S w)); [done| |done].
  intros ic fr <-. apply outer_body_extend.
Qed.

Lemma generate_pairs_eq (S : list Z) (w : Z) :
  generate_pairs S w = Ok (pairs_of S w).
Proof. unfold generate_pairs, construct. by rewrite init_frame. Qed.

Lemma construct_eq (S : list Z) (w : Z) :
  construct S w = Ok {| window_size := w; data := pairs_of S w |}.
Proof. unfold construct. by rewrite init_frame. Qed.

(** ** General list facts *)

Lemma bind_filter {A B : Type} (P : A -> Prop) `{!forall x, Decision (P x)}
    (f : A -> list B) (l : list A) :
  filter P l ≫= f = l ≫= (fun x => if decide (P x) then f x else []).
Proof.
  induction l as [|x l IH]; [done|].
  rewrite filter_cons, bind_cons. destruct (decide (P x)).
  - by rewrite bind_cons, IH.
  - by rewrite IH.
Qed.

Lemma bind_all_nil {A B : Type} (l : list A) :
  l ≫= (fun _ => @nil B) = [].
Proof. induction l as [|x l IH]; [done|]. by rewrite bind_cons, IH. Qed.

Lemma bind_sublist_pointwise {A B : Type} (f g : A -> list B) (l : list A) :
  (forall x, x ∈ l -> f x `sublist_of` g x) -> l ≫= f `sublist_of` l ≫= g.
Proof.
  induction l as [|x l IH]; intros Hfg; [done|].
  rewrite !bind_cons. apply sublist_app.
  - apply Hfg. by left.
  - apply IH. intros y Hy. apply Hfg. by right.
Qed.

Lemma closed_range_range lo hi : closed_range lo hi = range lo (hi + 1).
Proof. unfold closed_range, range. f_equal. lia. Qed.

Lemma indices_range {A : Type} (l : list A) :
  closed_range 0 (len l - 1) = seqZ 0 (len l).
Proof. unfold closed_range. f_equal. lia. Qed.

(** [enumerate] visits the indices [0 .. len - 1] in order, each with the
    element stored there. *)
Lemma enumerate_bind {B : Type} (G : Z -> Z -> list B) (l : list Z) :
  enumerate l ≫= (fun ic => G ic.1 ic.2) =
  seqZ 0 (len l) ≫=
    (fun i => match l !! Z.to_nat i with Some c => G i c | None => [] end).
Proof.
  induction l as [|x l IH] using rev_ind; [done|].
  unfold enumerate, len in *. rewrite imap_app, length_app. simpl.
  rewrite Nat.add_0_r, Nat.add_1_r, seqZ_S, !bind_app, IH. f_equal.
  - apply Forall_bind_ext, Forall_seqZ. intros i Hi.
    rewrite lookup_app_l by lia. done.
  - simpl. rewrite Z.add_0_l, Nat2Z.id, list_lookup_middle by done.
    by rewrite !app_nil_r.
Qed.

(** ** The generator and the brute-force enumeration *)

Lemma window_pairs_center_pairs (S : list Z) (w i : Z) :
  window_pairs S w i =
  match S !! Z.to_nat i with
  | Some c => center_pairs S w (i, c)
  | None => []
  end.
Proof.
  unfold window_pairs, center_pairs. rewrite bind_filter, closed_range_range.
  simpl. destruct (S !! Z.to_nat i) as [c|] eqn:Hc.
  - apply list_bind_ext; [|done]. intros j. unfold context_pair.
    destruct (Z.eqb_spec j i), (Z.geb_spec j 0), (Z.ltb_spec j (len S));
      simpl; case_decide; try done; lia.
  - etrans; [|apply (bind_all_nil (range (i - w) (i + w + 1)))].
    apply list_bind_ext; [|done]. intros j. by case_decide.
Qed.

Lemma brute_force_pairs_of (S : list Z) (w : Z) :
  brute_force S w = pairs_of S w.
Proof.
  unfold brute_force, pairs_of. rewrite indices_range.
  trans (enumerate S ≫= (fun ic => center_pairs S w (ic.1, ic.2))).
  2: { apply list_bind_ext; [|done]. by intros [i c]. }
  rewrite (enumerate_bind (fun i c => center_pairs S w (i, c)) S).
  apply list_bind_ext; [|done]. intros i. apply window_pairs_center_pairs.
Qed.

(** ** Counting *)

(** Filtering a run of consecutive integers by an interval leaves a run. *)
Lemma filter_seqZ_interval (lo hi : Z) (n : nat) : forall a : Z,
  filter (fun j => lo <= j < hi) (seqZ a (Z.of_nat n)) =
  seqZ (Z.max a lo) (Z.min (a + Z.of_nat n) hi - Z.max a lo).
Proof.
  induction n as [|n IH]; intros a.
  - rewrite (seqZ_nil a) by lia. by rewrite seqZ_nil by lia.
  - rewrite (seqZ_cons a) by lia. rewrite filter_cons.
    replace (Z.pred (Z.of_nat (S n))) with (Z.of_nat n) by lia.
    rewrite IH. case_decide as Ha.
    + rewrite (seqZ_cons (Z.max a lo)) by lia.
      f_equal; [lia|]. f_equal; lia.
    + destruct (Z.lt_ge_cases a lo).
      * f_equal; lia.
      * by rewrite !seqZ_nil by lia.
Qed.

Lemma filter_Forall_id {A : Type} (P : A -> Prop) `{!forall x, Decision (P x)}
    (l : list A) :
  Forall P l -> filter P l = l.
Proof.
  induction 1 as [|x l Hx _ IH]; [done|].
  by rewrite filter_cons_True, IH.
Qed.

(** Removing one member from a run of consecutive integers. *)
Lemma length_filter_seqZ_ne (i lo k : Z) :
  lo <= i < lo + k ->
  Z.of_nat (length (filter (fun j => j ≠ i) (seqZ lo k))) = k - 1.
Proof.
  intros Hi.
  replace k with ((i - lo) + (1 + (lo + k - i - 1))) at 1 by lia.
  rewrite seqZ_app, (seqZ_app _ 1) by lia.
  rewrite !filter_app, !length_app.
  rewrite (filter_Forall_id _ (seqZ lo _)), (filter_Forall_id _ (seqZ (lo + _ + 1) _)).
  - replace (lo + (i - lo)) with i by lia.
    rewrite (seqZ_cons i 1), (seqZ_nil (Z.succ i)) by lia.
    rewrite filter_cons_False by (intros Hne; by apply Hne).
    rewrite filter_nil, !length_seqZ. simpl. lia.
  - apply Forall_seqZ. lia.
  - apply Forall_seqZ. lia.
Qed.

Lemma length_bind_singletons {A B : Type} (g : A -> list B) (l : list A) :
  Forall (fun x => length (g x) = 1%nat) l -> length (l ≫= g) = length l.
Proof.
  induction 1 as [|x l Hx _ IH]; [done|].
  rewrite bind_cons, length_app, Hx, IH. done.
Qed.

Lemma sum_length_bind {A B : Type} (h : A -> list B) (f : A -> Z) (l : list A) :
  Forall (fun x => Z.of_nat (length (h x)) = f x) l ->
  Z.of_nat (length (l ≫= h)) = foldr Z.add 0 (f <$> l).
Proof.
  induction 1 as [|x l Hx _ IH]; [done|].
  rewrite bind_cons, length_app, fmap_cons. simpl. lia.
Qed.

(** One center contributes its in-range window less itself. *)
Lemma length_window_pairs (S : list Z) (w i : Z) :
  0 <= w -> 0 <= i < len S ->
  Z.of_nat (length (window_pairs S w i)) =
  Z.min (i + w) (len S - 1) - Z.max (i - w) 0.
Proof.
  intros Hw Hi. unfold window_pairs.
  rewrite length_bind_singletons.
  - rewrite <- (list_filter_filter (fun j => j ≠ i) (fun j => 0 <= j <= len S - 1)).
    rewrite (list_filter_iff (fun j => 0 <= j <= len S - 1)
               (fun j => 0 <= j < len S)) by (intros; lia).
    unfold closed_range.
    replace (i + w - (i - w) + 1) with (Z.of_nat (Z.to_nat (2 * w + 1))) by lia.
    rewrite filter_seqZ_interval, length_filter_seqZ_ne; lia.
  - apply Forall_forall. intros j [[Hne Hj] _]%list_elem_of_filter.
    destruct (lookup_lt_is_Some_2 S (Z.to_nat i)) as [c ->];
      [unfold len in *; lia|].
    destruct (lookup_lt_is_Some_2 S (Z.to_nat j)) as [x ->];
      [unfold len in *; lia|].
    done.
Qed.

Lemma length_pairs_of (S : list Z) (w : Z) :
  0 <= w -> Z.of_nat (length (pairs_of S w)) = window_count S w.
Proof.
  intros Hw. rewrite <- brute_force_pairs_of.
  unfold brute_force, window_count. apply sum_length_bind.
  rewrite indices_range. apply Forall_seqZ. intros i Hi.
  apply length_window_pairs; lia.
Qed.

(** ** Membership *)

Lemma elem_of_context_pair (T : list Z) (i c j : Z) (p : Z * Z) :
  p ∈ context_pair T i c j ->
  j ≠ i /\ 0 <= j < len T /\ exists x, T !! Z.to_nat j = Some x /\ p = (c, x).
Proof.
  unfold context_pair.
  destruct (Z.eqb_spec j i), (Z.geb_spec j 0), (Z.ltb_spec j (len T));
    simpl; try by intros ?%elem_of_nil.
  destruct (T !! Z.to_nat j) as [x|]; [|by intros ?%elem_of_nil].
  intros ->%list_elem_of_singleton. split; [done|]. split; [lia|]. by exists x.
Qed.

Lemma elem_of_pairs_of (T : list Z) (w : Z) (p : Z * Z) :
  p ∈ pairs_of T w ->
  exists (i j : Z) (c x : Z),
    p = (c, x) /\ 0 <= i < len T /\ j ≠ i /\ 0 <= j < len T /\
    i - w <= j <= i + w /\
    T !! Z.to_nat i = Some c /\ T !! Z.to_nat j = Some x.
Proof.
  unfold pairs_of. intros ([i c] & Hp & Hic)%list_elem_of_bind.
  apply elem_of_lookup_imap in Hic as (k & y & [= -> ->] & Hk).
  unfold center_pairs in Hp. simpl in Hp.
  apply list_elem_of_bind in Hp as (j & Hp & Hj).
  apply elem_of_seqZ in Hj.
  apply elem_of_context_pair in Hp as (Hne & Hr & x & Hx & ->).
  exists (Z.of_nat k), j, y, x. rewrite Nat2Z.id.
  apply lookup_lt_Some in Hk as Hlt. unfold len in *.
  repeat split; try done; lia.
Qed.

(** ** Degenerate windows and sequences *)

Lemma context_pair_outside (T : list Z) (i c j : Z) :
  j = i \/ j < 0 \/ len T <= j -> context_pair T i c j = [].
Proof.
  intros Hj. unfold context_pair.
  destruct (Z.eqb_spec j i), (Z.geb_spec j 0), (Z.ltb_spec j (len T));
    simpl; try done; lia.
Qed.

Lemma context_pair_self (T : list Z) (i c : Z) : context_pair T i c i = [].
Proof. apply context_pair_outside. by left. Qed.

Lemma center_pairs_negative (T : list Z) (w : Z) (ic : Z * Z) :
  w < 0 -> center_pairs T w ic = [].
Proof. intros Hw. unfold center_pairs, range. by rewrite seqZ_nil by lia. Qed.

Lemma center_pairs_zero (T : list Z) (ic : Z * Z) : center_pairs T 0 ic = [].
Proof.
  unfold center_pairs, range. rewrite seqZ_cons, seqZ_nil by lia.
  rewrite bind_singleton, Z.sub_0_r. apply context_pair_self.
Qed.

Lemma pairs_of_all_nil (T : list Z) (w : Z) :
  (forall ic, center_pairs T w ic = []) -> pairs_of T w = [].
Proof.
  intros Hnil. unfold pairs_of.
  etrans; [|apply (bind_all_nil (enumerate T))].
  apply list_bind_ext; [|done]. apply Hnil.
Qed.

Lemma pairs_of_singleton (a w : Z) : pairs_of [a] w = [].
Proof.
  unfold pairs_of, enumerate. simpl. rewrite app_nil_r.
  unfold center_pairs. simpl.
  etrans; [|apply (bind_all_nil (range (0 - w) (0 + w + 1)))].
  apply list_bind_ext; [|done]. intros j.
  apply context_pair_outside. unfold len. simpl. lia.
Qed.

(** ** Growing the window *)

Lemma range_window_sublist (i w1 w2 : Z) :
  w1 <= w2 ->
  range (i - w1) (i + w1 + 1) `sublist_of` range (i - w2) (i + w2 + 1).
Proof.
  intros Hw. unfold range. destruct (Z.lt_ge_cases w1 0) as [Hneg|Hpos].
  - rewrite (seqZ_nil (i - w1)) by lia. apply sublist_nil_l.
  - replace (i + w2 + 1 - (i - w2))
      with ((w2 - w1) + ((i + w1 + 1 - (i - w1)) + (w2 - w1))) by lia.
    rewrite seqZ_app by lia. rewrite seqZ_app by lia.
    replace (i - w2 + (w2 - w1)) with (i - w1) by lia.
    apply sublist_inserts_l, sublist_inserts_r. done.
Qed.

Lemma pairs_of_sublist (T : list Z) (w1 w2 : Z) :
  w1 <= w2 -> pairs_of T w1 `sublist_of` pairs_of T w2.
Proof.
  intros Hw. unfold pairs_of. apply bind_sublist_pointwise.
  intros [i c] _. unfold center_pairs. simpl.
  apply bind_sublist. by apply range_window_sublist.
Qed.

(** ** Indexing the dataset *)

Lemma getitem_in_range (ds : SkipGramDataset) (k : Z) :
  0 <= k < __len__ ds ->
  exists p, data ds !! Z.to_nat k = Some p /\ __getitem__ ds k = Ok p.
Proof. intros Hk. by apply list_getitem_in_range. Qed.

(** * The claims *)

(** C1: for every sequence [S] and window size [w >= 0], the generator
    emits exactly the pairs of the brute-force double loop (centers in
    increasing order, then [j] increasing over the closed range
    [i - w, i + w], without [j = i] and without [j] outside the sequence),
    element for element and in the same order. *)
Theorem generate_pairs_brute_force (S : list Z) (w : Z) :
  0 <= w -> generate_pairs S w = Ok (brute_force S w).
Proof. intros _. by rewrite generate_pairs_eq, brute_force_pairs_of. Qed.

Lemma generate_pairs_brute_force_witness :
  0 <= 2 /\ generate_pairs [10; 11; 12; 13] 2 = Ok (brute_force [10; 11; 12; 13] 2).
Proof. split; [lia | apply (generate_pairs_brute_force [10; 11; 12; 13] 2); lia]. Defined.

(** C2: for [w >= 0], every emitted pair [(c, x)] comes from two positions
    [i] and [j] of the sequence with [j <> i], [0 <= j < len(S)],
    [|j - i| <= w], [c = S[i]] and [x = S[j]]. *)
Theorem emitted_pair_positions (S : list Z) (w : Z) (ps : list (Z * Z)) (c x : Z) :
  0 <= w ->
  generate_pairs S w = Ok ps ->
  (c, x) ∈ ps ->
  exists i j : Z,
    0 <= i < len S /\ j ≠ i /\ 0 <= j < len S /\ Z.abs (j - i) <= w /\
    S !! Z.to_nat i = Some c /\ S !! Z.to_nat j = Some x.
Proof.
  intros _. rewrite generate_pairs_eq. intros [= <-] Hin.
  apply elem_of_pairs_of in Hin
    as (i & j & c' & x' & [= -> ->] & Hi & Hne & Hj & Hw & Hc & Hx).
  exists i, j. repeat split; try done; lia.
Qed.

Lemma emitted_pair_positions_witness :
  exists i j : Z,
    0 <= i < len [10; 11; 12] /\ j ≠ i /\ 0 <= j < len [10; 11; 12] /\
    Z.abs (j - i) <= 1 /\
    [10; 11; 12] !! Z.to_nat i = Some 11 /\ [10; 11; 12] !! Z.to_nat j = Some 12.
Proof.
  apply (emitted_pair_positions [10; 11; 12] 1
           [(10, 11); (11, 10); (11, 12); (12, 11)] 11 12).
  - lia.
  - reflexivity.
  - do 2 right. left.
Defined.

(** C3, as the code has it: a negative window size raises nothing; every
    inner range is empty and the generator returns the empty pair list. *)
Theorem negative_window_empty (S : list Z) (w : Z) :
  w < 0 -> generate_pairs S w = Ok [].
Proof.
  intros Hw. rewrite generate_pairs_eq. f_equal.
  apply pairs_of_all_nil. intros ic. by apply center_pairs_negative.
Qed.

Lemma negative_window_empty_witness :
  -1 < 0 /\ generate_pairs [10; 11; 12] (-1) = Ok [].
Proof. split; [lia | apply (negative_window_empty [10; 11; 12] (-1)); lia]. Defined.

(** C3, as stated, fails: with [w = -1] the generator returns normally, so
    no invalid-argument error (and no error at all) is raised. *)
Lemma negative_window_no_error :
  generate_pairs [10; 11; 12] (-1) = Ok [] /\
  ~ (exists e, generate_pairs [10; 11; 12] (-1) = Raise e /\
               is_invalid_argument e = true).
Proof. split; [reflexivity|]. intros (e & He & _). discriminate He. Qed.

(** C4: for [w >= 0] the number of emitted pairs is the sum over every
    index [i] of [min(i + w, len(S) - 1) - max(i - w, 0)]. *)
Theorem pair_count (S : list Z) (w : Z) :
  0 <= w ->
  exists ps, generate_pairs S w = Ok ps /\ len ps = window_count S w.
Proof.
  intros Hw. exists (pairs_of S w). split; [apply generate_pairs_eq|].
  by apply length_pairs_of.
Qed.

Lemma pair_count_witness :
  0 <= 2 /\
  exists ps, generate_pairs [10; 11; 12; 13] 2 = Ok ps /\
             len ps = window_count [10; 11; 12; 13] 2.
Proof. split; [lia | apply (pair_count [10; 11; 12; 13] 2); lia]. Defined.

(** C5: for every window size, a sequence of length 0 and a sequence of
    length 1 both give the empty pair list. *)
Theorem short_sequence_empty (w : Z) :
  generate_pairs [] w = Ok [] /\ forall a, generate_pairs [a] w = Ok [].
Proof.
  split; [reflexivity|]. intros a.
  by rewrite generate_pairs_eq, pairs_of_singleton.
Qed.

(** C6: for every non-empty sequence, window size 0 gives the empty pair
    list: the only candidate [j = i] is the excluded self-pair. *)
Theorem zero_window_empty (S : list Z) :
  S ≠ [] -> generate_pairs S 0 = Ok [].
Proof.
  intros _. rewrite generate_pairs_eq. f_equal.
  apply pairs_of_all_nil, center_pairs_zero.
Qed.

Lemma zero_window_empty_witness :
  [10; 11; 12] ≠ [] /\ generate_pairs [10; 11; 12] 0 = Ok [].
Proof. split; [discriminate | apply (zero_window_empty [10; 11; 12]); discriminate]. Defined.

(** C7: the two worked scenarios, [S = [10, 11, 12]] with [w = 1] and
    [S = [10, 11, 12, 13]] with [w = 2], give exactly the listed pairs in
    the listed order. *)
Theorem concrete_scenarios :
  generate_pairs [10; 11; 12] 1 =
    Ok [(10, 11); (11, 10); (11, 12); (12, 11)] /\
  generate_pairs [10; 11; 12; 13] 2 =
    Ok [(10, 11); (10, 12); (11, 10); (11, 12); (11, 13);
        (12, 10); (12, 11); (12, 13); (13, 11); (13, 12)].
Proof. split; reflexivity. Qed.

(** ** The constructor on the heap *)

Section heap_run.
Context (hb : gmap positive object) (slf txt ld : positive).
Context (T : list Z) (attrs : gmap string value) (w : Z).
Hypothesis Htxt : hb !! txt = Some (OList (int_values T)).
Hypothesis Hslf : hb !! slf = Some (OInstance attrs).
Hypothesis Hdata : attrs !! "data" = Some (VRef ld).
Hypothesis Hld_txt : ld ≠ txt.
Hypothesis Hld_slf : ld ≠ slf.

(** The heap while the loops run: [hb] with the list at [ld] holding
    what has been appended so far. *)
Local Abbreviation st := (h_with_items ld hb).

Lemma st_grow (items more : list value) :
  <[ld := OList (items ++ more)]> (st items) = st (items ++ more).
Proof. unfold h_with_items. apply insert_insert_eq. Qed.

Lemma h_inner_body_st (i c j : Z) (items : list value) :
  h_inner_body slf txt i (VInt c) j (st items) =
  HOk (st (items ++ (pair_value <$> context_pair T i c j))).
Proof.
  unfold h_inner_body, context_pair, h_len, h_getattr, h_getitem.
  assert (st items !! txt = Some (OList (int_values T))) as ->
    by (unfold h_with_items; by rewrite lookup_insert_ne).
  assert (st items !! slf = Some (OInstance attrs)) as ->
    by (unfold h_with_items; by rewrite lookup_insert_ne).
  assert (len (int_values T) = len T) as Hlen
    by (unfold int_values, len; by rewrite length_fmap).
  destruct (negb (j =? i) && (j >=? 0)) eqn:Hg; simpl;
    [|by rewrite app_nil_r].
  rewrite Hlen. destruct (Z.ltb_spec j (len T)) as [Hlt|Hge];
    [|by rewrite app_nil_r].
  rewrite Hdata. simpl.
  apply andb_prop in Hg as [_ Hj]. apply Z.geb_le in Hj.
  destruct (list_getitem_in_range (int_values T) j) as (x & Hx & ->);
    [lia|].
  unfold int_values in Hx. rewrite list_lookup_fmap in Hx.
  destruct (T !! Z.to_nat j) as [t|]; [|done].
  injection Hx as <-. unfold h_append_method, h_list_append.
  assert (st items !! ld = Some (OList items)) as Hld
    by (unfold h_with_items; by rewrite lookup_insert_eq).
  rewrite Hld. simpl. rewrite Hld. by rewrite st_grow.
Qed.

Lemma h_for_each_st (i c : Z) (js : list Z) : forall items : list value,
  h_for_each js (h_inner_body slf txt i (VInt c)) (st items) =
  HOk (st (items ++ (pair_value <$> (js ≫= context_pair T i c)))).
Proof.
  induction js as [|j js IH]; intros items; simpl.
  - by rewrite app_nil_r.
  - rewrite h_inner_body_st. simpl.
    change (h_for_each js (h_inner_body slf txt i (VInt c))
              (st (items ++ (pair_value <$> context_pair T i c j))) =
            HOk (st (items ++
              (pair_value <$> (context_pair T i c j ++ (js ≫= context_pair T i c)))))).
    by rewrite IH, fmap_app, app_assoc.
Qed.

Lemma h_outer_body_st (i c : Z) (items : list value) :
  h_outer_body slf txt w i (VInt c) (st items) =
  HOk (st (items ++ (pair_value <$> center_pairs T w (i, c)))).
Proof. unfold h_outer_body, center_pairs. apply h_for_each_st. Qed.

(** The outer loop from position [k], with [m] positions to go: it
    finishes exactly when the fuel exceeds [m]. *)
Lemma h_for_enumerate_st (fuel : nat) :
  forall (m k : nat) (items : list value),
    (k + m)%nat = length T ->
    h_for_enumerate fuel txt k (h_outer_body slf txt w) (st items) =
    if decide (m < fuel)%nat
    then Some (HOk (st (items ++
           (pair_value <$> (drop k (enumerate T) ≫= center_pairs T w)))))
    else None.
Proof.
  induction fuel as [|fuel IH]; intros m k items Hkm.
  - by rewrite decide_False by lia.
  - simpl.
    assert (st items !! txt = Some (OList (int_values T))) as ->
      by (unfold h_with_items; by rewrite lookup_insert_ne).
    unfold int_values. rewrite list_lookup_fmap.
    destruct m as [|m].
    + rewrite (lookup_ge_None_2 T k) by lia. simpl.
      rewrite drop_ge by (unfold enumerate; rewrite length_imap; lia).
      by rewrite app_nil_r.
    + destruct (lookup_lt_is_Some_2 T k) as [c Hc]; [lia|].
      rewrite Hc. simpl. rewrite h_outer_body_st.
      rewrite (IH m (Datatypes.S k)) by lia.
      assert (enumerate T !! k = Some (Z.of_nat k, c)) as Hen
        by (unfold enumerate; by rewrite list_lookup_imap, Hc).
      rewrite (drop_S _ _ _ Hen), bind_cons, fmap_app, app_assoc.
      destruct (decide (m < fuel)%nat).
      * by rewrite decide_True by lia.
      * by rewrite decide_False by lia.
Qed.
End heap_run.

Lemma pair_value_inj (ps qs : list (Z * Z)) :
  pair_value <$> ps = pair_value <$> qs -> ps = qs.
Proof.
  revert qs. induction ps as [|[a b] ps IH]; intros [|[c d] qs] Heq;
    try done.
  injection Heq as Ha Hb Hrest. f_equal; [congruence|]. by apply IH.
Qed.

(** A run of [__init__] on a heap in which [text] is a list of token ids
    and [self] an instance: when it returns, what it has allocated, written
    and left alone. *)
Lemma h_init_run (T : list Z) (w : Z) (h : gmap positive object)
    (slf txt : positive) (attrs : gmap string value) :
  h !! txt = Some (OList (int_values T)) ->
  h !! slf = Some (OInstance attrs) ->
  exists (h' : gmap positive object) (ld : positive),
    (forall fuel,
       h_init fuel slf txt w h =
       if decide (length T < fuel)%nat then Some (HOk h') else None) /\
    (ld ∉ dom h) /\
    h' !! slf = Some (OInstance
      (<["data" := VRef ld]> (<["window_size" := VInt w]> attrs))) /\
    h' !! ld = Some (OList (pair_value <$> pairs_of T w)) /\
    h' !! txt = Some (OList (int_values T)) /\
    (forall l, l ≠ slf -> l ≠ ld -> h' !! l = h !! l).
Proof.
  intros Htxt Hslf.
  assert (txt ≠ slf) as Hts by (intros ->; congruence).
  set (attrs1 := <["window_size" := VInt w]> attrs).
  set (h1 := <[slf := OInstance attrs1]> h).
  set (ld := fresh (dom h1)).
  assert (ld ∉ dom h1) as Hfresh by apply is_fresh.
  assert (ld ≠ slf) as Hls.
  { intros Heq. apply Hfresh. rewrite Heq. unfold h1.
    rewrite dom_insert. set_solver. }
  assert (ld ∉ dom h) as Hnew.
  { intros Hin. apply Hfresh. unfold h1. rewrite dom_insert. set_solver. }
  assert (ld ≠ txt) as Hlt.
  { intros Heq. apply Hnew. rewrite Heq. apply elem_of_dom. by eexists. }
  set (h2 := <[ld := OList []]> h1).
  set (attrs3 := <["data" := VRef ld]> attrs1).
  set (h3 := <[slf := OInstance attrs3]> h2).
  exists (<[ld := OList (pair_value <$> pairs_of T w)]> h3), ld.
  split; [|split; [done|]].
  - intros fuel. unfold h_init, h_setattr at 1. rewrite Hslf.
    fold attrs1. fold h1. unfold h_new_list. fold ld. fold h2.
    unfold h_setattr.
    assert (h2 !! slf = Some (OInstance attrs1)) as ->
      by (unfold h2, h1; by rewrite lookup_insert_ne, lookup_insert_eq).
    fold attrs3. fold h3.
    assert (h3 = <[ld := OList []]> h3) as Hst.
    { symmetry. apply insert_id. unfold h3, h2.
      by rewrite lookup_insert_ne, lookup_insert_eq. }
    rewrite Hst at 1. fold (h_with_items ld h3 []).
    rewrite (h_for_enumerate_st h3 slf txt ld T attrs3 w) with (m := length T).
    + unfold pairs_of. by rewrite drop_0.
    + unfold h3, h2, h1. by rewrite !lookup_insert_ne.
    + unfold h3. by rewrite lookup_insert_eq.
    + unfold attrs3. by rewrite lookup_insert_eq.
    + done.
    + done.
    + done.
  - split; [|split; [|split]].
    + unfold h3. by rewrite lookup_insert_ne, lookup_insert_eq.
    + by rewrite lookup_insert_eq.
    + unfold h3, h2, h1. by rewrite !lookup_insert_ne.
    + intros l Hl1 Hl2. unfold h3, h2, h1. by rewrite !lookup_insert_ne.
Qed.

(** C8: generation is a deterministic function of the sequence and the
    window size and has no side effect beyond the dataset it builds.  On any
    heap in which [text] refers to a list of the token ids [S] and [self] to
    an instance, [__init__] returns (with any fuel above [len(S)], and with
    no less); it allocates one new list object, binds [self.window_size] and
    [self.data], the latter to the new list, which ends holding the pairs of
    [generate_pairs S w]; the list [text] refers to is as before, and so is
    every other object of the heap.  And any two runs on the same [S] and
    [w], whatever their heaps and references, leave equal pair lists. *)
Theorem generation_pure (S : list Z) (w : Z) :
  (forall (h : gmap positive object) (self text : positive)
          (attrs : gmap string value),
     h !! text = Some (OList (int_values S)) ->
     h !! self = Some (OInstance attrs) ->
     exists (h' : gmap positive object) (ld : positive) (ps : list (Z * Z)),
       generate_pairs S w = Ok ps /\
       (forall fuel,
          h_init fuel self text w h =
          if decide (length S < fuel)%nat then Some (HOk h') else None) /\
       (ld ∉ dom h) /\
       h' !! self = Some (OInstance
         (<["data" := VRef ld]> (<["window_size" := VInt w]> attrs))) /\
       h' !! ld = Some (OList (pair_value <$> ps)) /\
       h' !! text = Some (OList (int_values S)) /\
       (forall l, l ≠ self -> l ≠ ld -> h' !! l = h !! l)) /\
  (forall (h1 h1' h2 h2' : gmap positive object)
          (self1 text1 self2 text2 : positive)
          (attrs1 attrs2 : gmap string value) (ps1 ps2 : list (Z * Z)),
     h1 !! text1 = Some (OList (int_values S)) ->
     h1 !! self1 = Some (OInstance attrs1) ->
     h2 !! text2 = Some (OList (int_values S)) ->
     h2 !! self2 = Some (OInstance attrs2) ->
     h_returns self1 text1 w h1 h1' ->
     h_returns self2 text2 w h2 h2' ->
     h_dataset_pairs h1' self1 ps1 ->
     h_dataset_pairs h2' self2 ps2 ->
     ps1 = ps2).
Proof.
  assert (forall (h h' : gmap positive object) (slf txt : positive)
            (attrs : gmap string value) (ps : list (Z * Z)),
            h !! txt = Some (OList (int_values S)) ->
            h !! slf = Some (OInstance attrs) ->
            h_returns slf txt w h h' ->
            h_dataset_pairs h' slf ps ->
            ps = pairs_of S w) as Hrun.
  { intros h h' slf txt attrs ps Htxt Hslf [fuel Hret] (attrs' & ld' & Hs & Hd & Hl).
    destruct (h_init_run S w h slf txt attrs Htxt Hslf)
      as (hf & ld & Hfuel & _ & Hfs & Hfl & _).
    rewrite Hfuel in Hret. case_decide; [|done].
    injection Hret as <-. rewrite Hfs in Hs. injection Hs as <-.
    rewrite lookup_insert_eq in Hd. injection Hd as <-.
    rewrite Hfl in Hl. injection Hl as Hl. symmetry. by apply pair_value_inj. }
  split.
  - intros h self text attrs Htxt Hslf.
    destruct (h_init_run S w h self text attrs Htxt Hslf)
      as (h' & ld & Hfuel & Hnew & Hfs & Hfl & Hft & Hrest).
    exists h', ld, (pairs_of S w).
    split; [apply generate_pairs_eq|]. done.
  - intros h1 h1' h2 h2' self1 text1 self2 text2 attrs1 attrs2 ps1 ps2
      Ht1 Hs1 Ht2 Hs2 Hr1 Hr2 Hd1 Hd2.
    rewrite (Hrun h1 h1' self1 text1 attrs1 ps1) by done.
    by rewrite (Hrun h2 h2' self2 text2 attrs2 ps2).
Qed.

Lemma generation_pure_witness :
  exists (h' : gmap positive object) (ld : positive) (ps : list (Z * Z)),
    generate_pairs [10; 11; 12] 1 = Ok ps /\
    (forall fuel,
       h_init fuel 2 1 1
         (<[2%positive := OInstance ∅]> {[1%positive := OList (int_values [10; 11; 12])]}) =
       if decide (length [10; 11; 12] < fuel)%nat then Some (HOk h') else None) /\
    (ld ∉ dom (<[2%positive := OInstance ∅]>
                ({[1%positive := OList (int_values [10; 11; 12])]} : gmap positive object))) /\
    h' !! 2%positive = Some (OInstance
      (<["data" := VRef ld]> (<["window_size" := VInt 1]> ∅))) /\
    h' !! ld = Some (OList (pair_value <$> ps)) /\
    h' !! 1%positive = Some (OList (int_values [10; 11; 12])) /\
    (forall l, l ≠ 2%positive -> l ≠ ld ->
       h' !! l =
       (<[2%positive := OInstance ∅]>
          ({[1%positive := OList (int_values [10; 11; 12])]} : gmap positive object)) !! l).
Proof.
  apply (proj1 (generation_pure [10; 11; 12] 1)
           (<[2%positive := OInstance ∅]> {[1%positive := OList (int_values [10; 11; 12])]})
           2%positive 1%positive ∅); reflexivity.
Defined.

(** C9: on a constructed dataset [__len__] is the number of pairs emitted
    during construction, and for every [k] with [0 <= k < __len__()],
    [__getitem__(k)] returns, without raising, the [k]-th emitted pair. *)
Theorem dataset_len_getitem (S : list Z) (w : Z) (ds : SkipGramDataset) :
  construct S w = Ok ds ->
  exists ps,
    generate_pairs S w = Ok ps /\
    ps = brute_force S w /\
    __len__ ds = len ps /\
    forall k, 0 <= k < __len__ ds ->
      exists p, ps !! Z.to_nat k = Some p /\ __getitem__ ds k = Ok p.
Proof.
  rewrite construct_eq. intros [= <-].
  exists (pairs_of S w). split; [apply generate_pairs_eq|].
  split; [by rewrite brute_force_pairs_of|]. split; [done|].
  intros k Hk.
  by apply (getitem_in_range {| window_size := w; data := pairs_of S w |}).
Qed.

Lemma dataset_len_getitem_witness :
  exists ps,
    generate_pairs [10; 11; 12] 1 = Ok ps /\
    ps = brute_force [10; 11; 12] 1 /\
    __len__ {| window_size := 1;
               data := [(10, 11); (11, 10); (11, 12); (12, 11)] |} = len ps /\
    forall k, 0 <= k < __len__ {| window_size := 1;
               data := [(10, 11); (11, 10); (11, 12); (12, 11)] |} ->
      exists p, ps !! Z.to_nat k = Some p /\
        __getitem__ {| window_size := 1;
               data := [(10, 11); (11, 10); (11, 12); (12, 11)] |} k = Ok p.
Proof. apply (dataset_len_getitem [10; 11; 12] 1). reflexivity. Defined.

(** C10: for window sizes [0 <= w1 <= w2] the pair list of [w1] is a
    subsequence of the pair list of [w2], and so is no longer. *)
Theorem window_monotone (S : list Z) (w1 w2 : Z) :
  0 <= w1 <= w2 ->
  exists ps1 ps2,
    generate_pairs S w1 = Ok ps1 /\ generate_pairs S w2 = Ok ps2 /\
    ps1 `sublist_of` ps2 /\ (length ps1 <= length ps2)%nat.
Proof.
  intros [_ Hw]. exists (pairs_of S w1), (pairs_of S w2).
  split; [apply generate_pairs_eq|]. split; [apply generate_pairs_eq|].
  assert (pairs_of S w1 `sublist_of` pairs_of S w2) as Hsub
    by by apply pairs_of_sublist.
  split; [done | by apply sublist_length].
Qed.

Lemma window_monotone_witness :
  0 <= 1 <= 2 /\
  exists ps1 ps2,
    generate_pairs [10; 11; 12; 13] 1 = Ok ps1 /\
    generate_pairs [10; 11; 12; 13] 2 = Ok ps2 /\
    ps1 `sublist_of` ps2 /\ (length ps1 <= length ps2)%nat.
Proof. split; [lia | apply (window_monotone [10; 11; 12; 13] 1 2); lia]. Defined.

(** * Further properties of the notebook's code *)

(** ** The pairs as positions *)

Lemma fmap_bind_list {A B C : Type} (f : B -> C) (g : A -> list B) (l : list A) :
  f <$> (l ≫= g) = l ≫= (fun x => f <$> g x).
Proof.
  induction l as [|x l IH]; [done|].
  by rewrite !bind_cons, fmap_app, IH.
Qed.

Lemma filter_seqZ_interval_Z (lo hi a k : Z) :
  filter (fun j => lo <= j < hi) (seqZ a k) =
  seqZ (Z.max a lo) (Z.min (a + k) hi - Z.max a lo).
Proof.
  destruct (Z.le_gt_cases k 0) as [Hk|Hk].
  - by rewrite !seqZ_nil by lia.
  - rewrite <- (Z2Nat.id k) at 1 by lia.
    rewrite filter_seqZ_interval. f_equal. lia.
Qed.

(** The in-range part of the window around [i], seen from the window and
    seen from the sequence. *)
Lemma window_filter (n w i : Z) :
  0 <= n ->
  filter (fun j => j ≠ i ∧ 0 <= j <= n - 1) (closed_range (i - w) (i + w)) =
  filter (fun j => j ≠ i ∧ Z.abs (j - i) <= w) (seqZ 0 n).
Proof.
  intros Hn.
  rewrite <- (list_filter_filter (fun j => j ≠ i) (fun j => 0 <= j <= n - 1)).
  rewrite (list_filter_iff (fun j => 0 <= j <= n - 1)
             (fun j => 0 <= j < n)) by (intros; lia).
  rewrite (list_filter_iff (fun j => j ≠ i ∧ Z.abs (j - i) <= w)
             (fun j => j ≠ i ∧ i - w <= j < i + w + 1)) by (intros; lia).
  rewrite <- (list_filter_filter (fun j => j ≠ i)
                (fun j => i - w <= j < i + w + 1)).
  unfold closed_range. rewrite !filter_seqZ_interval_Z.
  f_equal. f_equal; lia.
Qed.

Lemma window_pairs_positions (T : list Z) (w i : Z) :
  0 <= i < len T ->
  window_pairs T w i =
  tokens_at T <$>
    (seqZ 0 (len T) ≫= fun j =>
       if decide (j ≠ i ∧ Z.abs (j - i) <= w) then [(i, j)] else []).
Proof.
  intros Hi. unfold window_pairs.
  rewrite window_filter by (unfold len; lia).
  rewrite <- (bind_filter (fun j => j ≠ i ∧ Z.abs (j - i) <= w)
                (fun j => [(i, j)])).
  rewrite fmap_bind_list. apply Forall_bind_ext, Forall_forall.
  intros j [_ Hj%elem_of_seqZ]%list_elem_of_filter.
  unfold tokens_at. simpl.
  rewrite (list_lookup_lookup_total_lt T (Z.to_nat i)) by (unfold len in *; lia).
  rewrite (list_lookup_lookup_total_lt T (Z.to_nat j)) by (unfold len in *; lia).
  done.
Qed.

(** The emitted list is the list of in-window position pairs, read through
    the sequence. *)
Lemma pairs_of_positions (T : list Z) (w : Z) :
  pairs_of T w = tokens_at T <$> position_pairs (len T) w.
Proof.
  rewrite <- brute_force_pairs_of. unfold brute_force, position_pairs.
  rewrite indices_range, fmap_bind_list.
  apply Forall_bind_ext, Forall_seqZ. intros i Hi.
  apply window_pairs_positions. lia.
Qed.

Lemma elem_of_guarded_singleton {A : Type} (C : Prop) `{!Decision C}
    (p q : A) :
  p ∈ (if decide C then [q] else []) <-> C /\ p = q.
Proof.
  case_decide.
  - rewrite list_elem_of_singleton. tauto.
  - rewrite elem_of_nil. tauto.
Qed.

Lemma elem_of_position_pairs (n w i j : Z) :
  (i, j) ∈ position_pairs n w <->
  0 <= i < n /\ 0 <= j < n /\ j ≠ i /\ Z.abs (j - i) <= w.
Proof.
  unfold position_pairs. rewrite list_elem_of_bind. split.
  - intros (i' & (j' & [Hc [= -> ->]]%elem_of_guarded_singleton & Hj)%list_elem_of_bind & Hi).
    apply elem_of_seqZ in Hi, Hj. lia.
  - intros (Hi & Hj & Hne & Hw). exists i. split; [|apply elem_of_seqZ; lia].
    apply list_elem_of_bind. exists j. split; [|apply elem_of_seqZ; lia].
    by apply elem_of_guarded_singleton.
Qed.

Lemma NoDup_position_pairs (n w : Z) : NoDup (position_pairs n w).
Proof.
  unfold position_pairs. apply NoDup_bind; [| |apply NoDup_seqZ].
  - intros i1 i2 p _ _ (j1 & [_ ->]%elem_of_guarded_singleton & _)%list_elem_of_bind
      (j2 & [_ [= -> _]]%elem_of_guarded_singleton & _)%list_elem_of_bind.
    done.
  - intros i _. apply NoDup_bind; [| |apply NoDup_seqZ].
    + intros j1 j2 p _ _ [_ ->]%elem_of_guarded_singleton
        [_ [= ->]]%elem_of_guarded_singleton.
      done.
    + intros j _. case_decide; [apply NoDup_singleton | apply NoDup_nil_2].
Qed.

Lemma tokens_at_lookup (T : list Z) (i j : Z) :
  0 <= i < len T -> 0 <= j < len T ->
  T !! Z.to_nat i = Some (tokens_at T (i, j)).1 /\
  T !! Z.to_nat j = Some (tokens_at T (i, j)).2.
Proof.
  intros Hi Hj. unfold tokens_at. simpl.
  split; apply list_lookup_lookup_total_lt; unfold len in *; lia.
Qed.

(** ** Exchanging two nested enumerations *)

Lemma bind_app_pointwise {A B : Type} (g h : A -> list B) (l : list A) :
  l ≫= (fun x => g x ++ h x) ≡ₚ (l ≫= g) ++ (l ≫= h).
Proof.
  induction l as [|x l IH]; [done|].
  rewrite !bind_cons, IH. solve_Permutation.
Qed.

Lemma bind_exchange {A B C : Type} (f : A -> B -> list C)
    (l1 : list A) (l2 : list B) :
  l1 ≫= (fun a => l2 ≫= f a) ≡ₚ l2 ≫= (fun b => l1 ≫= fun a => f a b).
Proof.
  induction l1 as [|a l1 IH].
  - simpl. by rewrite bind_all_nil.
  - rewrite bind_cons, IH.
    rewrite <- (bind_app_pointwise (f a) (fun b => l1 ≫= fun a' => f a' b)).
    apply Permutation_refl.
Qed.

Lemma position_pairs_swap (n w : Z) :
  prod_swap <$> position_pairs n w ≡ₚ position_pairs n w.
Proof.
  unfold position_pairs. rewrite fmap_bind_list.
  rewrite (list_bind_ext _
    (fun i => seqZ 0 n ≫= fun j =>
       if decide (i ≠ j ∧ Z.abs (i - j) <= w) then [(j, i)] else [])
    (seqZ 0 n) (seqZ 0 n)); [|intros i|done].
  - apply (bind_exchange
      (fun i j => if decide (i ≠ j ∧ Z.abs (i - j) <= w) then [(j, i)] else [])).
  - rewrite fmap_bind_list. apply list_bind_ext; [|done]. intros j.
    destruct (decide (j ≠ i ∧ Z.abs (j - i) <= w)) as [Hc|Hc].
    + rewrite decide_True by lia. done.
    + rewrite decide_False by lia. done.
Qed.

(** ** The size of the dataset *)

Lemma foldr_add_snoc (l : list Z) (x : Z) :
  foldr Z.add 0 (l ++ [x]) = foldr Z.add 0 l + x.
Proof. induction l as [|y l IH]; simpl; lia. Qed.

Lemma foldr_add_fmap_snoc {A : Type} (f : A -> Z) (l : list A) (x : A) :
  foldr Z.add 0 (f <$> (l ++ [x])) = foldr Z.add 0 (f <$> l) + f x.
Proof. rewrite fmap_app. apply foldr_add_snoc. Qed.

(** Twice the sum of the first [k] window sizes, for a window that fits
    the sequence. *)
Lemma partial_window_sum (n w : Z) (k : nat) :
  0 <= w <= n - 1 -> Z.of_nat k <= n ->
  2 * foldr Z.add 0
        ((fun i => Z.min (i + w) (n - 1) - Z.max (i - w) 0)
           <$> seqZ 0 (Z.of_nat k)) =
  Z.min (Z.of_nat k) (n - w) * (Z.min (Z.of_nat k) (n - w) - 1)
  + 2 * Z.min (Z.of_nat k) (n - w) * w
  + 2 * (Z.of_nat k - Z.min (Z.of_nat k) (n - w)) * (n - 1)
  - Z.max (Z.of_nat k - w) 0 * (Z.max (Z.of_nat k - w) 0 - 1).
Proof.
  intros Hw. induction k as [|k IH]; intros Hk.
  - simpl. rewrite Z.min_l, Z.max_r by lia. lia.
  - rewrite seqZ_S, foldr_add_fmap_snoc. cbv beta.
    rewrite Z.mul_add_distr_l, IH by lia. clear IH.
    rewrite Z.add_0_l.
    destruct (Z.lt_ge_cases (Z.of_nat k) (n - w)) as [Ha|Ha];
      destruct (Z.lt_ge_cases (Z.of_nat k) w) as [Hb|Hb].
    + rewrite (Z.min_l (Z.of_nat k)), (Z.min_l (Z.of_nat (S k))),
        (Z.max_r (Z.of_nat k - w)), (Z.max_r (Z.of_nat (S k) - w)),
        (Z.min_l (Z.of_nat k + w)) by lia. nia.
    + rewrite (Z.min_l (Z.of_nat k)), (Z.min_l (Z.of_nat (S k))),
        (Z.max_l (Z.of_nat k - w)), (Z.max_l (Z.of_nat (S k) - w)),
        (Z.min_l (Z.of_nat k + w)) by lia. nia.
    + rewrite (Z.min_r (Z.of_nat k)), (Z.min_r (Z.of_nat (S k))),
        (Z.max_r (Z.of_nat k - w)), (Z.max_r (Z.of_nat (S k) - w)),
        (Z.min_r (Z.of_nat k + w)) by lia. nia.
    + rewrite (Z.min_r (Z.of_nat k)), (Z.min_r (Z.of_nat (S k))),
        (Z.max_l (Z.of_nat k - w)), (Z.max_l (Z.of_nat (S k) - w)),
        (Z.min_r (Z.of_nat k + w)) by lia. nia.
Qed.

Lemma window_count_closed (S : list Z) (w : Z) :
  0 <= w <= len S - 1 -> window_count S w = w * (2 * len S - w - 1).
Proof.
  intros Hw. unfold window_count. rewrite indices_range.
  pose proof (partial_window_sum (len S) w (length S) Hw) as Hsum.
  fold (len S) in Hsum. specialize (Hsum ltac:(lia)).
  rewrite Z.min_r, Z.max_l in Hsum by lia. nia.
Qed.

Lemma position_pairs_saturated (n w1 w2 : Z) :
  n - 1 <= w1 -> n - 1 <= w2 -> position_pairs n w1 = position_pairs n w2.
Proof.
  intros H1 H2. unfold position_pairs.
  apply Forall_bind_ext, Forall_seqZ. intros i Hi.
  apply Forall_bind_ext, Forall_seqZ. intros j Hj.
  destruct (decide (j ≠ i ∧ Z.abs (j - i) <= w1)).
  - rewrite decide_True by lia. done.
  - rewrite decide_False by lia. done.
Qed.

Lemma pairs_of_saturated (T : list Z) (w1 w2 : Z) :
  len T - 1 <= w1 -> len T - 1 <= w2 -> pairs_of T w1 = pairs_of T w2.
Proof.
  intros H1 H2. rewrite !pairs_of_positions.
  by rewrite (position_pairs_saturated _ w1 w2).
Qed.

Lemma length_pairs_of_saturated (T : list Z) (w : Z) :
  len T - 1 <= w -> len (pairs_of T w) = len T * (len T - 1).
Proof.
  intros Hw. destruct T as [|a T]; [done|].
  rewrite (pairs_of_saturated _ w (len (a :: T) - 1)) by lia.
  unfold len at 1. rewrite length_pairs_of by (unfold len; simpl; lia).
  rewrite window_count_closed by (unfold len; simpl; lia). lia.
Qed.

(** ** A longer sequence *)

Lemma context_pair_app (T T' : list Z) (i c j : Z) :
  context_pair T i c j `sublist_of` context_pair (T ++ T') i c j.
Proof.
  unfold context_pair.
  destruct (Z.eqb_spec j i), (Z.geb_spec j 0), (Z.ltb_spec j (len T));
    simpl; try apply sublist_nil_l.
  destruct (Z.ltb_spec j (len (T ++ T'))) as [_|Hge].
  - rewrite lookup_app_l by (unfold len in *; lia). done.
  - unfold len in *. rewrite length_app in Hge. lia.
Qed.

Lemma pairs_of_app (T T' : list Z) (w : Z) :
  pairs_of T w `sublist_of` pairs_of (T ++ T') w.
Proof.
  unfold pairs_of, enumerate. rewrite imap_app, bind_app.
  apply sublist_inserts_r, bind_sublist_pointwise. intros [i c] _.
  unfold center_pairs. simpl. apply bind_sublist_pointwise. intros j _.
  apply context_pair_app.
Qed.

(** ** Indexing *)

Lemma list_getitem_index {A : Type} `{!Inhabited A} (l : list A) (k : Z) :
  list_getitem l k =
  if decide (- len l <= k < len l)
  then Ok (l !!! Z.to_nat (k `mod` len l))
  else Raise IndexError.
Proof.
  unfold list_getitem.
  destruct (Z.ltb_spec k 0) as [Hneg|Hpos].
  - destruct (Z.leb_spec 0 (k + len l)), (Z.ltb_spec (k + len l) (len l));
      simpl; try lia.
    + rewrite decide_True by lia.
      replace (k `mod` len l) with (k + len l)
        by (apply Z.mod_unique with (-1); lia).
      by rewrite (list_lookup_lookup_total_lt l) by (unfold len in *; lia).
    + by rewrite decide_False by lia.
  - destruct (Z.leb_spec 0 k), (Z.ltb_spec k (len l)); simpl; try lia.
    + rewrite decide_True by lia. rewrite Z.mod_small by lia.
      by rewrite (list_lookup_lookup_total_lt l) by (unfold len in *; lia).
    + by rewrite decide_False by lia.
Qed.

Lemma getitem_each (ds : SkipGramDataset) (indices : list Z) :
  Forall (fun k => 0 <= k < __len__ ds) indices ->
  Forall2 (fun k p => __getitem__ ds k = Ok p) indices
    ((fun k => data ds !!! Z.to_nat k) <$> indices).
Proof.
  induction 1 as [|k indices Hk _ IH]; [constructor|].
  rewrite fmap_cons. constructor; [|done].
  destruct (getitem_in_range ds k Hk) as (p & Hp & ->).
  by rewrite (list_lookup_total_correct _ _ _ Hp).
Qed.

Lemma fmap_lookup_total_seqZ {A : Type} `{!Inhabited A} (l : list A) :
  (fun k => l !!! Z.to_nat k) <$> seqZ 0 (len l) = l.
Proof.
  apply list_eq. intros k. rewrite list_lookup_fmap.
  destruct (decide (k < length l)%nat) as [Hk|Hk].
  - rewrite lookup_seqZ_lt by (unfold len; lia). simpl.
    rewrite Z.add_0_l, Nat2Z.id. symmetry.
    by apply list_lookup_lookup_total_lt.
  - rewrite lookup_seqZ_ge by (unfold len; lia).
    symmetry. apply lookup_ge_None. lia.
Qed.

(** ** Counting tokens *)

Lemma occurrences_nonneg (t : string) (l : list string) : 0 <= occurrences t l.
Proof. unfold occurrences, len. lia. Qed.

Lemma occurrences_snoc (t e : string) (l : list string) :
  occurrences t (l ++ [e]) =
  occurrences t l + (if decide (e = t) then 1 else 0).
Proof.
  unfold occurrences, len. rewrite filter_app, length_app.
  rewrite filter_cons, filter_nil. case_decide; simpl; lia.
Qed.

Lemma counts_of_add (c : gmap string Z) (l : list string) (e : string) :
  counts_of c l -> counts_of (<[e := counter_get c e + 1]> c) (l ++ [e]).
Proof.
  intros Hc t. rewrite occurrences_snoc.
  pose proof (occurrences_nonneg t l) as Hnn.
  destruct (decide (e = t)) as [->|Hne].
  - rewrite lookup_insert_eq. rewrite decide_False by lia.
    unfold counter_get. rewrite (Hc t).
    case_decide as H0; simpl; f_equal; lia.
  - rewrite lookup_insert_ne by done. rewrite Z.add_0_r. apply Hc.
Qed.

Lemma counts_of_update (iterable : list string) :
  forall (c : gmap string Z) (l : list string),
    counts_of c l -> counts_of (counter_update iterable c) (l ++ iterable).
Proof.
  unfold counter_update.
  induction iterable as [|e iterable IH]; intros c l Hc; simpl.
  - by rewrite app_nil_r.
  - rewrite cons_middle, app_assoc. apply IH. by apply counts_of_add.
Qed.

Lemma counts_of_loop (tokenizer : string -> list string)
    (train_iter : list (Z * string)) :
  forall (c : gmap string Z) (l : list string),
    counts_of c l ->
    counts_of
      (foldl (fun counter sample => counter_update (tokenizer sample.2) counter)
             c train_iter)
      (l ++ (train_iter ≫= fun sample => tokenizer sample.2)).
Proof.
  induction train_iter as [|sample train_iter IH]; intros c l Hc; simpl.
  - by rewrite app_nil_r.
  - rewrite app_assoc. apply IH. by apply counts_of_update.
Qed.

(** ** Showing the first samples *)

Lemma preview_from (xs : list (Z * string)) :
  forall (i : Z) (out : list (Z * string)),
    0 <= i <= 5 ->
    for_each_break xs preview_body {| preview_i := i; printed := out |} =
    ({| preview_i := Z.min 5 (i + len xs);
        printed := out ++ take (Z.to_nat (5 - i)) xs |},
     drop (Z.to_nat (6 - i)) xs).
Proof.
  induction xs as [|x xs IH]; intros i out Hi.
  - simpl. rewrite take_nil, drop_nil, app_nil_r.
    unfold len. simpl. rewrite Z.add_0_r, Z.min_r by lia. done.
  - simpl. unfold preview_body at 1. simpl.
    destruct (Z.ltb_spec i 5) as [Hlt|Hge].
    + rewrite IH by lia.
      replace (Z.to_nat (5 - i)) with (S (Z.to_nat (5 - (i + 1)))) by lia.
      replace (Z.to_nat (6 - i)) with (S (Z.to_nat (6 - (i + 1)))) by lia.
      simpl. rewrite <- app_assoc. simpl.
      f_equal. f_equal. unfold len. simpl. lia.
    + replace i with 5 by lia. simpl. rewrite app_nil_r.
      unfold len. rewrite Z.min_l by lia. done.
Qed.

(** * Properties of the dataset, its callers and the preprocessing cells *)

Lemma elem_of_pairs_of_iff (T : list Z) (w c x : Z) :
  (c, x) ∈ pairs_of T w <->
  exists i j : Z,
    0 <= i /\ 0 <= j /\ j ≠ i /\ Z.abs (j - i) <= w /\
    T !! Z.to_nat i = Some c /\ T !! Z.to_nat j = Some x.
Proof.
  rewrite pairs_of_positions, list_elem_of_fmap. split.
  - intros ([i j] & Heq & (Hi & Hj & Hne & Hw)%elem_of_position_pairs).
    destruct (tokens_at_lookup T i j Hi Hj) as [Hc Hx].
    rewrite <- Heq in Hc, Hx. exists i, j. repeat split; try done; lia.
  - intros (i & j & Hi & Hj & Hne & Hw & Hc & Hx). exists (i, j).
    apply lookup_lt_Some in Hc as Hil. apply lookup_lt_Some in Hx as Hjl.
    split.
    + unfold tokens_at. simpl.
      by rewrite (list_lookup_total_correct _ _ _ Hc),
        (list_lookup_total_correct _ _ _ Hx).
    + apply elem_of_position_pairs. unfold len. lia.
Qed.

(** X1: the emitted pairs are exactly the token pairs at two distinct
    positions of the sequence that lie within the window of each other:
    nothing else is emitted and no such pair is left out. *)
Theorem emitted_iff_in_window (S : list Z) (w : Z) :
  exists ps,
    generate_pairs S w = Ok ps /\
    forall c x,
      (c, x) ∈ ps <->
      exists i j : Z,
        0 <= i /\ 0 <= j /\ j ≠ i /\ Z.abs (j - i) <= w /\
        S !! Z.to_nat i = Some c /\ S !! Z.to_nat j = Some x.
Proof.
  exists (pairs_of S w). split; [apply generate_pairs_eq|].
  intros c x. apply elem_of_pairs_of_iff.
Qed.

(** X2: the pair list is symmetric: swapping center and context in every
    pair gives a rearrangement of the same list, so [(c, x)] is emitted as
    often as [(x, c)]. *)
Theorem pairs_symmetric (S : list Z) (w : Z) :
  exists ps, generate_pairs S w = Ok ps /\ prod_swap <$> ps ≡ₚ ps.
Proof.
  exists (pairs_of S w). split; [apply generate_pairs_eq|].
  rewrite pairs_of_positions.
  rewrite <- (position_pairs_swap (len S) w) at 2.
  rewrite <- !list_fmap_compose. apply Permutation_refl.
Qed.

(** X3: when the window fits the sequence, [0 <= w <= len(S) - 1], the
    dataset holds [w * (2 * len(S) - w - 1)] pairs. *)
Theorem dataset_size_closed_form (S : list Z) (w : Z) :
  0 <= w <= len S - 1 ->
  exists ds,
    construct S w = Ok ds /\ __len__ ds = w * (2 * len S - w - 1).
Proof.
  intros Hw. eexists. split; [apply construct_eq|].
  unfold __len__. simpl. unfold len at 1.
  rewrite length_pairs_of by lia. by apply window_count_closed.
Qed.

Lemma dataset_size_closed_form_witness :
  exists ds,
    construct [10; 11; 12; 13; 14] 2 = Ok ds /\
    __len__ ds = 2 * (2 * len [10; 11; 12; 13; 14] - 2 - 1).
Proof. apply (dataset_size_closed_form [10; 11; 12; 13; 14] 2). unfold len. simpl. lia. Defined.

(** X4: once the window reaches across the whole sequence,
    [w >= len(S) - 1], the dataset holds every ordered pair of distinct
    positions, [len(S) * (len(S) - 1)] pairs, and a still larger window
    gives the same list. *)
Theorem window_saturation (S : list Z) (w : Z) :
  len S - 1 <= w ->
  exists ps,
    generate_pairs S w = Ok ps /\
    len ps = len S * (len S - 1) /\
    forall w', len S - 1 <= w' -> generate_pairs S w' = Ok ps.
Proof.
  intros Hw. exists (pairs_of S w). split; [apply generate_pairs_eq|]. split.
  - by apply length_pairs_of_saturated.
  - intros w' Hw'. rewrite generate_pairs_eq. f_equal.
    by apply pairs_of_saturated.
Qed.

Lemma window_saturation_witness :
  exists ps,
    generate_pairs [10; 11; 12] 4 = Ok ps /\
    len ps = len [10; 11; 12] * (len [10; 11; 12] - 1) /\
    forall w', len [10; 11; 12] - 1 <= w' -> generate_pairs [10; 11; 12] w' = Ok ps.
Proof. apply (window_saturation [10; 11; 12] 4). unfold len. simpl. lia. Defined.

(** X5: when the tokens of the sequence are pairwise distinct, no pair is
    emitted twice. *)
Theorem distinct_tokens_distinct_pairs (S : list Z) (w : Z) :
  NoDup S -> exists ps, generate_pairs S w = Ok ps /\ NoDup ps.
Proof.
  intros Hnd. exists (pairs_of S w). split; [apply generate_pairs_eq|].
  rewrite pairs_of_positions.
  apply NoDup_fmap_2_strong; [|apply NoDup_position_pairs].
  intros [i1 j1] [i2 j2]
    (Hi1 & Hj1 & _)%elem_of_position_pairs
    (Hi2 & Hj2 & _)%elem_of_position_pairs Heq.
  destruct (tokens_at_lookup S i1 j1 Hi1 Hj1) as [Hc1 Hx1].
  destruct (tokens_at_lookup S i2 j2 Hi2 Hj2) as [Hc2 Hx2].
  rewrite Heq in Hc1, Hx1.
  pose proof (NoDup_lookup _ _ _ _ Hnd Hc1 Hc2).
  pose proof (NoDup_lookup _ _ _ _ Hnd Hx1 Hx2).
  f_equal; lia.
Qed.

Lemma distinct_tokens_distinct_pairs_witness :
  exists ps, generate_pairs [10; 11; 12] 1 = Ok ps /\ NoDup ps.
Proof.
  apply (distinct_tokens_distinct_pairs [10; 11; 12] 1).
  exact (NoDup_seqZ 10 3).
Defined.

(** X6: the pairs of a sequence are a subsequence of the pairs of any
    sequence that continues it, for the same window size. *)
Theorem longer_sequence_sublist (S S' : list Z) (w : Z) :
  exists ps ps',
    generate_pairs S w = Ok ps /\ generate_pairs (S ++ S') w = Ok ps' /\
    ps `sublist_of` ps'.
Proof.
  exists (pairs_of S w), (pairs_of (S ++ S') w).
  split; [apply generate_pairs_eq|]. split; [apply generate_pairs_eq|].
  apply pairs_of_app.
Qed.

(** X7: [__getitem__(k)] returns a pair exactly for
    [-len <= k < len], the one at position [k mod len] (so a negative index
    counts from the end), and raises [IndexError] for every other index. *)
Theorem getitem_index (ds : SkipGramDataset) (k : Z) :
  __getitem__ ds k =
  if decide (- __len__ ds <= k < __len__ ds)
  then Ok (data ds !!! Z.to_nat (k `mod` __len__ ds))
  else Raise IndexError.
Proof. apply list_getitem_index. Qed.

(** X8: indexing the dataset at the indices [0 .. len - 1], taken in any
    order, never raises, and the pairs read are a rearrangement of the
    stored pairs: every stored pair is read exactly once. *)
Theorem getitem_any_order (ds : SkipGramDataset) (indices : list Z) :
  indices ≡ₚ range 0 (__len__ ds) ->
  exists items,
    Forall2 (fun k p => __getitem__ ds k = Ok p) indices items /\
    items ≡ₚ data ds.
Proof.
  intros Hperm. eexists. split.
  - apply getitem_each. rewrite Hperm. apply Forall_seqZ. lia.
  - rewrite Hperm. unfold range, __len__. rewrite Z.sub_0_r.
    by rewrite fmap_lookup_total_seqZ.
Qed.

Lemma getitem_any_order_witness :
  exists items,
    Forall2 (fun k p =>
               __getitem__ {| window_size := 1; data := [(10, 11); (11, 10)] |} k = Ok p)
            [1; 0] items /\
    items ≡ₚ [(10, 11); (11, 10)].
Proof.
  apply (getitem_any_order {| window_size := 1; data := [(10, 11); (11, 10)] |} [1; 0]).
  apply perm_swap.
Defined.

(** X9: the dataset built from a text with the default window,
    [SkipGramDataset(text_pipeline(x))], is always built, has window size 4,
    and holds [n * (n - 1)] pairs for a text of [n <= 5] tokens and
    [8 * n - 20] pairs for a longer one. *)
Theorem dataset_of_text_size (vocab : string -> Z)
    (tokenizer : string -> list string) (x : string) :
  exists ds,
    dataset_of_text vocab tokenizer x = Ok ds /\
    window_size ds = 4 /\
    __len__ ds =
      if decide (len (tokenizer x) <= 5)
      then len (tokenizer x) * (len (tokenizer x) - 1)
      else 8 * len (tokenizer x) - 20.
Proof.
  unfold dataset_of_text, construct_default, default_window_size.
  eexists. split; [apply construct_eq|]. split; [done|].
  unfold __len__. simpl.
  assert (len (text_pipeline vocab tokenizer x) = len (tokenizer x)) as Hlen
    by (unfold text_pipeline, len; by rewrite length_fmap).
  case_decide as Hn.
  - rewrite length_pairs_of_saturated by lia. by rewrite Hlen.
  - unfold len at 1. rewrite length_pairs_of by lia.
    rewrite window_count_closed by lia. rewrite Hlen. lia.
Qed.

(** X10: the comprehension [[vocab[token] for token in tokens if token in
    vocab]] never raises [KeyError]: it returns the ids of the tokens the
    vocabulary holds, in order, and drops the others. *)
Theorem token_ids_known_tokens (vocab : gmap string Z) (tokens : list string) :
  token_ids vocab tokens = KeyOk (omap (fun token => vocab !! token) tokens).
Proof.
  induction tokens as [|token rest IH]; [done|].
  simpl. unfold dict_contains, dict_getitem.
  destruct (vocab !! token) as [id|] eqn:Hv.
  - rewrite bool_decide_eq_true_2 by by eexists. by rewrite IH.
  - rewrite bool_decide_eq_false_2 by (by intros [? ?]). done.
Qed.

(** X11: after the counting loop the counter holds exactly the tokens that
    occur in the tokenized lines, each with its number of occurrences; a
    token that never occurs is not a key. *)
Theorem count_tokens_occurrences (tokenizer : string -> list string)
    (train_iter : list (Z * string)) (t : string) :
  count_tokens tokenizer train_iter !! t =
  if decide (occurrences t (train_iter ≫= fun sample => tokenizer sample.2) = 0)
  then None
  else Some (occurrences t (train_iter ≫= fun sample => tokenizer sample.2)).
Proof.
  unfold count_tokens.
  apply (counts_of_loop tokenizer train_iter ∅ []). intros u.
  by rewrite lookup_empty.
Qed.

(** X12: the loop that shows samples prints the first five samples in
    order (all of them when there are fewer), leaves [i] at the number
    printed, and takes at most six samples from the iterator. *)
Theorem preview_first_five (train_iter : list (Z * string)) :
  preview train_iter =
  ({| preview_i := Z.min 5 (len train_iter); printed := take 5 train_iter |},
   drop 6 train_iter).
Proof. unfold preview. by rewrite preview_from by lia. Qed.

(** X13: in the dataset built from a text, a pair of ids is present
    exactly when it is the pair of vocabulary indices of two tokens of the
    text at distinct positions at most 4 apart. *)
Theorem dataset_of_text_pairs (vocab : string -> Z)
    (tokenizer : string -> list string) (x : string) :
  exists ds,
    dataset_of_text vocab tokenizer x = Ok ds /\
    forall c t,
      (c, t) ∈ data ds <->
      exists (i j : nat) (u v : string),
        i ≠ j /\ Z.abs (Z.of_nat j - Z.of_nat i) <= 4 /\
        tokenizer x !! i = Some u /\ tokenizer x !! j = Some v /\
        c = vocab u /\ t = vocab v.
Proof.
  unfold dataset_of_text, construct_default, default_window_size.
  eexists. split; [apply construct_eq|]. simpl. intros c t.
  rewrite elem_of_pairs_of_iff. unfold text_pipeline. split.
  - intros (i & j & Hi & Hj & Hne & Hw & Hc & Ht).
    rewrite list_lookup_fmap in Hc, Ht.
    apply fmap_Some in Hc as (u & Hu & ->).
    apply fmap_Some in Ht as (v & Hv & ->).
    exists (Z.to_nat i), (Z.to_nat j), u, v.
    repeat split; try done; lia.
  - intros (i & j & u & v & Hne & Hw & Hu & Hv & -> & ->).
    exists (Z.of_nat i), (Z.of_nat j). rewrite !Nat2Z.id, !list_lookup_fmap.
    rewrite Hu, Hv. repeat split; try done; lia.
Qed.
